(** * moneybag.h: coin bags and their worth

    A shallow embedding of the two value classes of [moneybag.h],
    [Moneybag] (three [uint64_t] coin counters) and [Value] (a boost
    [uint128_t] amount of deniers), with the properties of their
    arithmetic, comparison, conversion and printing.

    Machine integers are mathematical integers ([Z]) together with the
    reduction the C++ type applies after every operation.  The compound
    assignments mutate [*this]; they are written in a small state and
    exception monad whose state is the object the operator is called
    on, so that the object left behind by a [throw] can be inspected. *)

From Stdlib Require Import ZArith Bool String Ascii DecimalString Lia.
From Stdlib Require Import DecimalPos DecimalN.

Local Open Scope string_scope.
Local Open Scope Z_scope.

(** ** Fixed-width unsigned integers *)

Definition UINT64_MAX : Z := 2 ^ 64 - 1.

(** Conversion of an integer to [uint64_t] / [uint128_t]. *)
Definition u64 (x : Z) : Z := x mod 2 ^ 64.
Definition u128 (x : Z) : Z := x mod 2 ^ 128.

(** The values a [uint64_t] / [uint128_t] object can hold. *)
Definition is_u64 (x : Z) : Prop := 0 <= x <= UINT64_MAX.
Definition is_u128 (x : Z) : Prop := 0 <= x < 2 ^ 128.

(** [uint64_t] arithmetic: the exact result reduced modulo 2^64.
    Division of unsigned operands truncates, and does not wrap. *)
Definition add64 (x y : Z) : Z := u64 (x + y).
Definition sub64 (x y : Z) : Z := u64 (x - y).
Definition mul64 (x y : Z) : Z := u64 (x * y).
Definition div64 (x y : Z) : Z := x / y.

(** [uint128_t] arithmetic (unchecked [cpp_int] backend: modulo 2^128). *)
Definition add128 (x y : Z) : Z := u128 (x + y).
Definition mul128 (x y : Z) : Z := u128 (x * y).

(** The machine operations are never unfolded by simplification;
    proofs go through their range lemmas. *)
Arguments UINT64_MAX : simpl never.
Arguments u64 : simpl never.
Arguments u128 : simpl never.
Arguments is_u64 : simpl never.
Arguments is_u128 : simpl never.
Arguments add64 : simpl never.
Arguments sub64 : simpl never.
Arguments mul64 : simpl never.
Arguments div64 : simpl never.
Arguments add128 : simpl never.
Arguments mul128 : simpl never.

(** ** Exceptions and the object monad *)

Inductive exception : Type :=
| out_of_range (what : string).

Inductive outcome (A : Type) : Type :=
| Returned (a : A)
| Thrown (e : exception).
Arguments Returned {A} a.
Arguments Thrown {A} e.

(** ** class Moneybag *)

Record Moneybag : Type := mkMoneybag {
  livres : Z;
  soliduses : Z;
  deniers : Z
}.

Definition valid (m : Moneybag) : Prop :=
  is_u64 (livres m) /\ is_u64 (soliduses m) /\ is_u64 (deniers m).

Definition livre_number (m : Moneybag) : Z := livres m.
Definition solidus_number (m : Moneybag) : Z := soliduses m.
Definition denier_number (m : Moneybag) : Z := deniers m.

(** A member function body: it reads and writes the fields of [*this]
    and either returns or throws.  The second component of the result
    is [*this] as the body left it. *)
Definition method (A : Type) : Type := Moneybag -> outcome A * Moneybag.

Definition ret {A} (a : A) : method A := fun this => (Returned a, this).

Definition bind {A B} (c : method A) (k : A -> method B) : method B :=
  fun this =>
    match c this with
    | (Returned a, this') => k a this'
    | (Thrown e, this') => (Thrown e, this')
    end.

Definition throw {A} (e : exception) : method A :=
  fun this => (Thrown e, this).

Definition get : method Moneybag := fun this => (Returned this, this).

Definition put_livres (v : Z) : method unit :=
  fun this => (Returned tt, mkMoneybag v (soliduses this) (deniers this)).
Definition put_soliduses (v : Z) : method unit :=
  fun this => (Returned tt, mkMoneybag (livres this) v (deniers this)).
Definition put_deniers (v : Z) : method unit :=
  fun this => (Returned tt, mkMoneybag (livres this) (soliduses this) v).

Declare Scope method_scope.
Delimit Scope method_scope with method.
Notation "x <- c ;; k" := (bind c (fun x => k))
  (at level 61, c at next level, right associativity) : method_scope.
Notation "c ;; k" := (bind c (fun _ => k))
  (at level 61, right associativity) : method_scope.
Local Open Scope method_scope.

(** [livres += v] and its siblings: read the field, write it back. *)
Definition livres_add (v : Z) : method unit :=
  this <- get ;; put_livres (add64 (livres this) v).
Definition soliduses_add (v : Z) : method unit :=
  this <- get ;; put_soliduses (add64 (soliduses this) v).
Definition deniers_add (v : Z) : method unit :=
  this <- get ;; put_deniers (add64 (deniers this) v).

Definition livres_sub (v : Z) : method unit :=
  this <- get ;; put_livres (sub64 (livres this) v).
Definition soliduses_sub (v : Z) : method unit :=
  this <- get ;; put_soliduses (sub64 (soliduses this) v).
Definition deniers_sub (v : Z) : method unit :=
  this <- get ;; put_deniers (sub64 (deniers this) v).

Definition livres_mul (v : Z) : method unit :=
  this <- get ;; put_livres (mul64 (livres this) v).
Definition soliduses_mul (v : Z) : method unit :=
  this <- get ;; put_soliduses (mul64 (soliduses this) v).
Definition deniers_mul (v : Z) : method unit :=
  this <- get ;; put_deniers (mul64 (deniers this) v).

Definition add_error : exception :=
  out_of_range "Out of range while adding another moneybag.".
Definition sub_error : exception :=
  out_of_range "Out of range while substracting another moneybag.".
Definition mul_error : exception :=
  out_of_range "Out of range while multiplying moneybag.".

(** [Moneybag::operator+=].  The argument is a snapshot of the
    referenced bag: were it [*this] itself, every statement would still
    read a field no earlier statement has written. *)
Definition op_add_assign (m : Moneybag) : method unit :=
  this <- get ;;
  let MAX := UINT64_MAX in
  if (livres m >? sub64 MAX (livres this))
     || (soliduses m >? sub64 MAX (soliduses this))
     || (deniers m >? sub64 MAX (deniers this))
  then throw add_error
  else
    livres_add (livres m) ;;
    soliduses_add (soliduses m) ;;
    deniers_add (deniers m).

(** [Moneybag::operator-=] *)
Definition op_sub_assign (m : Moneybag) : method unit :=
  this <- get ;;
  if (livres m >? livres this)
     || (soliduses m >? soliduses this)
     || (deniers m >? deniers this)
  then throw sub_error
  else
    livres_sub (livres m) ;;
    soliduses_sub (soliduses m) ;;
    deniers_sub (deniers m).

(** [Moneybag::operator*=] *)
Definition op_mul_assign (times : Z) : method unit :=
  (if times >? 0 then
     this <- get ;;
     let MAX := UINT64_MAX in
     if (livres this >? div64 MAX times)
        || (soliduses this >? div64 MAX times)
        || (deniers this >? div64 MAX times)
     then throw mul_error
     else ret tt
   else ret tt) ;;
  livres_mul times ;;
  soliduses_mul times ;;
  deniers_mul times.

(** The binary operators copy-construct a temporary from [*this] and
    run the compound assignment on it; the temporary is the value
    returned. *)
Definition on_copy (this : Moneybag) (body : method unit) : outcome Moneybag :=
  match body this with
  | (Returned _, copy) => Returned copy
  | (Thrown e, _) => Thrown e
  end.

(** [Moneybag::operator+], [operator-], [operator*] and the friend
    [operator*(uint64_t, const Moneybag&)]. *)
Definition op_add (this m : Moneybag) : outcome Moneybag :=
  on_copy this (op_add_assign m).
Definition op_sub (this m : Moneybag) : outcome Moneybag :=
  on_copy this (op_sub_assign m).
Definition op_mul (this : Moneybag) (times : Z) : outcome Moneybag :=
  on_copy this (op_mul_assign times).
Definition op_mul_left (times : Z) (m : Moneybag) : outcome Moneybag :=
  op_mul m times.

(** [Moneybag::operator bool] *)
Definition op_bool (this : Moneybag) : bool :=
  (livres this >? 0) || (soliduses this >? 0) || (deniers this >? 0).

(** [std::partial_ordering] *)
Inductive partial_ordering : Type :=
| po_less | po_equivalent | po_greater | po_unordered.

Definition po_is_eq (c : partial_ordering) : bool :=
  match c with po_equivalent => true | _ => false end.

(** [Moneybag::operator<=>] *)
Definition op_cmp (this m : Moneybag) : partial_ordering :=
  if (livres this =? livres m) && (soliduses this =? soliduses m)
     && (deniers this =? deniers m)
  then po_equivalent
  else if (livres this >=? livres m) && (soliduses this >=? soliduses m)
          && (deniers this >=? deniers m)
  then po_greater
  else if (livres this <=? livres m) && (soliduses this <=? soliduses m)
          && (deniers this <=? deniers m)
  then po_less
  else po_unordered.

(** [Moneybag::operator==] *)
Definition op_eq (this m : Moneybag) : bool := po_is_eq (op_cmp this m).

(** The three unit constants. *)
Definition Livre : Moneybag := mkMoneybag 1 0 0.
Definition Solidus : Moneybag := mkMoneybag 0 1 0.
Definition Denier : Moneybag := mkMoneybag 0 0 1.

(** ** Output streams

    A [std::ostream] in its default format state, the state of a
    freshly constructed stream: [std::dec], no field width, no
    [showpos] or [showbase].  Such a stream is the sequence of
    characters written to it so far, and an integer is inserted in
    base ten without padding or sign.  Format flags, width and fill
    set by a caller are not part of this model. *)
Definition ostream : Type := string.

Definition decimal (x : Z) : string :=
  NilZero.string_of_uint (N.to_uint (Z.to_N x)).

Definition put_string (os : ostream) (s : string) : ostream := os ++ s.
Definition put_uint64 (os : ostream) (x : Z) : ostream := os ++ decimal x.

Declare Scope ostream_scope.
Delimit Scope ostream_scope with ostream.
Notation "os <<s s" := (put_string os s)
  (at level 50, left associativity) : ostream_scope.
Notation "os <<u x" := (put_uint64 os x)
  (at level 50, left associativity) : ostream_scope.

(** [operator<<(std::ostream&, const Moneybag&)] *)
Definition op_shl (os : ostream) (m : Moneybag) : ostream :=
  (os <<s "(" <<u livres m <<s " livr"
      <<s (if livres m =? 1 then "" else "es") <<s ", "
      <<u soliduses m <<s " solidus"
      <<s (if soliduses m =? 1 then "" else "es") <<s ", "
      <<u deniers m <<s " denier"
      <<s (if deniers m =? 1 then "" else "s") <<s ")")%ostream.

(** What a fresh stream holds after [os << m]. *)
Definition to_string (m : Moneybag) : string := op_shl "" m.

(** ** class Value *)

Record Value : Type := mkValue {
  value_in_denier : Z
}.

(** [Value::Value(uint64_t)]: the argument is widened to [uint128_t]. *)
Definition Value_of_uint64 (v : Z) : Value := mkValue (u128 v).

(** [Value::Value()] *)
Definition Value_default : Value := mkValue 0.

(** [Value::Value(const Moneybag&)] *)
Definition Value_of_Moneybag (m : Moneybag) : Value :=
  mkValue
    (add128
       (add128 (mul128 (u128 (livre_number m)) 240)
               (mul128 (u128 (solidus_number m)) 12))
       (u128 (denier_number m))).

(** [Value::operator std::string] *)
Definition Value_str (this : Value) : string :=
  decimal (value_in_denier this).

(** [std::weak_ordering] *)
Inductive weak_ordering : Type :=
| wo_less | wo_equivalent | wo_greater.

Definition wo_is_eq (c : weak_ordering) : bool :=
  match c with wo_equivalent => true | _ => false end.

(** [Value::operator<=>(const Value&)] *)
Definition Value_cmp (this v : Value) : weak_ordering :=
  if value_in_denier this >? value_in_denier v then wo_greater
  else if value_in_denier this <? value_in_denier v then wo_less
  else wo_equivalent.

(** [Value::operator<=>(uint64_t)]: a mixed comparison of a
    [uint128_t] with a [uint64_t], by value. *)
Definition Value_cmp_uint64 (this : Value) (v : Z) : weak_ordering :=
  if value_in_denier this >? v then wo_greater
  else if value_in_denier this <? v then wo_less
  else wo_equivalent.

(** [Value::operator==(const Value&)] and [Value::operator==(uint64_t)] *)
Definition Value_eq (this v : Value) : bool :=
  wo_is_eq (Value_cmp this v).
Definition Value_eq_uint64 (this : Value) (v : Z) : bool :=
  wo_is_eq (Value_cmp_uint64 this v).

(** ** Specification-side vocabulary *)

(** Component-wise sum, difference and multiple, in unbounded integers. *)
Definition sum (a b : Moneybag) : Moneybag :=
  mkMoneybag (livres a + livres b) (soliduses a + soliduses b)
             (deniers a + deniers b).
Definition difference (a b : Moneybag) : Moneybag :=
  mkMoneybag (livres a - livres b) (soliduses a - soliduses b)
             (deniers a - deniers b).
Definition multiple (a : Moneybag) (k : Z) : Moneybag :=
  mkMoneybag (livres a * k) (soliduses a * k) (deniers a * k).

(** Every component of [b] is at most the maximum minus that of [a]. *)
Definition add_fits (a b : Moneybag) : Prop :=
  livres b <= UINT64_MAX - livres a /\
  soliduses b <= UINT64_MAX - soliduses a /\
  deniers b <= UINT64_MAX - deniers a.

(** No component of [b] exceeds that of [a]. *)
Definition sub_fits (a b : Moneybag) : Prop :=
  livres b <= livres a /\ soliduses b <= soliduses a /\
  deniers b <= deniers a.

(** No component times [k] exceeds the maximum. *)
Definition mul_fits (a : Moneybag) (k : Z) : Prop :=
  livres a * k <= UINT64_MAX /\ soliduses a * k <= UINT64_MAX /\
  deniers a * k <= UINT64_MAX.

(** Component-wise relations between two bags. *)
Definition all_eq (a b : Moneybag) : Prop :=
  livres a = livres b /\ soliduses a = soliduses b /\ deniers a = deniers b.
Definition all_ge (a b : Moneybag) : Prop :=
  livres a >= livres b /\ soliduses a >= soliduses b /\
  deniers a >= deniers b.
Definition all_le (a b : Moneybag) : Prop :=
  livres a <= livres b /\ soliduses a <= soliduses b /\
  deniers a <= deniers b.

(** The worth of a bag in deniers, in unbounded integers. *)
Definition worth (m : Moneybag) : Z :=
  livres m * 240 + soliduses m * 12 + deniers m.

(** The bag with every counter at the maximum. *)
Definition max_bag : Moneybag :=
  mkMoneybag UINT64_MAX UINT64_MAX UINT64_MAX.

(** The noun printed after a count. *)
Definition noun (singular plural : string) (count : Z) : string :=
  if count =? 1 then singular else plural.

(** A count followed by its noun. *)
Definition counted (singular plural : string) (count : Z) : string :=
  (decimal count ++ " " ++ noun singular plural count)%string.

Arguments decimal : simpl never.

(** ** Reference arguments

    The parameter of [operator+=] and [operator-=] is a
    [const Moneybag&].  It names either another object, whose fields
    stay as they are during the call, or the very object the operator
    is called on.  Every [m.field] of the body is a read through the
    reference at the point where it is evaluated. *)
Inductive reference : Type :=
| other (m : Moneybag)
| self.

Definition read (r : reference) : method Moneybag :=
  match r with
  | other m => ret m
  | self => get
  end.

(** [Moneybag::operator+=], the argument read through its reference. *)
Definition op_add_assign_ref (r : reference) : method unit :=
  this <- get ;;
  m <- read r ;;
  let MAX := UINT64_MAX in
  if (livres m >? sub64 MAX (livres this))
     || (soliduses m >? sub64 MAX (soliduses this))
     || (deniers m >? sub64 MAX (deniers this))
  then throw add_error
  else
    (m <- read r ;; livres_add (livres m)) ;;
    (m <- read r ;; soliduses_add (soliduses m)) ;;
    (m <- read r ;; deniers_add (deniers m)).

(** [Moneybag::operator-=], the argument read through its reference. *)
Definition op_sub_assign_ref (r : reference) : method unit :=
  this <- get ;;
  m <- read r ;;
  if (livres m >? livres this)
     || (soliduses m >? soliduses this)
     || (deniers m >? deniers this)
  then throw sub_error
  else
    (m <- read r ;; livres_sub (livres m)) ;;
    (m <- read r ;; soliduses_sub (soliduses m)) ;;
    (m <- read r ;; deniers_sub (deniers m)).

(** ** Expressions over bags

    An operand that throws ends the evaluation of the whole
    expression; otherwise its value is handed on. *)
Definition and_then {A B} (o : outcome A) (k : A -> outcome B) : outcome B :=
  match o with
  | Returned a => k a
  | Thrown e => Thrown e
  end.

(** The empty bag, [Moneybag(0, 0, 0)]. *)
Definition empty_bag : Moneybag := mkMoneybag 0 0 0.

(** [l * Livre + s * Solidus + d * Denier] *)
Definition of_units (l s d : Z) : outcome Moneybag :=
  and_then (op_mul_left l Livre) (fun x =>
  and_then (op_mul_left s Solidus) (fun y =>
  and_then (op_add x y) (fun xy =>
  and_then (op_mul_left d Denier) (fun z =>
  op_add xy z)))).

(** Reading a base-ten numeral back. *)
Definition parse_decimal (s : string) : option Z :=
  match NilZero.uint_of_string s with
  | Some d => Some (Z.of_N (N.of_uint d))
  | None => None
  end.

(** Range side conditions on closed terms. *)
Ltac in_range :=
  unfold valid, add_fits, sub_fits, mul_fits, is_u64, is_u128, UINT64_MAX;
  cbn; lia.

(** Unfold the component-wise vocabulary down to integer arithmetic. *)
Ltac componentwise :=
  unfold valid, add_fits, sub_fits, mul_fits, sum, difference, multiple,
    empty_bag, is_u64 in *;
  cbn [livres soliduses deniers] in *.

(** * Properties *)

(** ** Machine arithmetic *)

Lemma u64_small x : is_u64 x -> u64 x = x.
Proof.
  unfold is_u64, UINT64_MAX, u64. intros H.
  apply Z.mod_small. lia.
Qed.

Lemma u128_small x : is_u128 x -> u128 x = x.
Proof.
  unfold is_u128, u128. intros H. now apply Z.mod_small.
Qed.

Lemma is_u64_is_u128 x : is_u64 x -> is_u128 x.
Proof. unfold is_u64, is_u128, UINT64_MAX. lia. Qed.

Lemma sub64_MAX x : is_u64 x -> sub64 UINT64_MAX x = UINT64_MAX - x.
Proof.
  intros H. unfold sub64. apply u64_small.
  unfold is_u64 in *. lia.
Qed.

(** Dividing the bound instead of multiplying the operand decides the
    same inequality. *)
Lemma div64_MAX_le x k :
  0 < k -> (x <= div64 UINT64_MAX k <-> x * k <= UINT64_MAX).
Proof.
  intros Hk. unfold div64. split; intros H.
  - pose proof (Z.mul_div_le UINT64_MAX k Hk). nia.
  - apply Z.div_le_lower_bound; lia.
Qed.

(** ** The three range checks, as propositions *)

Lemma add_check_false a b :
  valid a -> valid b ->
  ((livres b >? sub64 UINT64_MAX (livres a))
   || (soliduses b >? sub64 UINT64_MAX (soliduses a))
   || (deniers b >? sub64 UINT64_MAX (deniers a)) = false
   <-> add_fits a b).
Proof.
  intros (Hl & Hs & Hd) _. unfold add_fits.
  rewrite !sub64_MAX by assumption.
  rewrite !orb_false_iff, !Z.gtb_ltb, !Z.ltb_ge. tauto.
Qed.

Lemma sub_check_false a b :
  (livres b >? livres a) || (soliduses b >? soliduses a)
  || (deniers b >? deniers a) = false
  <-> sub_fits a b.
Proof.
  unfold sub_fits.
  rewrite !orb_false_iff, !Z.gtb_ltb, !Z.ltb_ge. tauto.
Qed.

Lemma mul_check_false a k :
  0 < k ->
  ((livres a >? div64 UINT64_MAX k) || (soliduses a >? div64 UINT64_MAX k)
   || (deniers a >? div64 UINT64_MAX k) = false
   <-> mul_fits a k).
Proof.
  intros Hk. unfold mul_fits.
  rewrite !orb_false_iff, !Z.gtb_ltb, !Z.ltb_ge.
  rewrite !(div64_MAX_le _ k Hk). tauto.
Qed.

(** ** Running the compound assignments *)

Lemma op_add_assign_returns a b :
  valid a -> valid b -> add_fits a b ->
  op_add_assign b a = (Returned tt, sum a b).
Proof.
  intros Ha Hb Hfits.
  pose proof (proj2 (add_check_false a b Ha Hb) Hfits) as Hchk.
  unfold op_add_assign, bind, get. cbv zeta. rewrite Hchk.
  destruct a as [l s d], b as [l' s' d'].
  destruct Ha as (Hl & Hs & Hd), Hb as (Hl' & Hs' & Hd').
  destruct Hfits as (Fl & Fs & Fd). cbn in *.
  unfold sum, add64. cbn.
  rewrite !u64_small; [reflexivity | unfold is_u64 in *; lia ..].
Qed.

Lemma op_add_assign_throws a b :
  valid a -> valid b -> ~ add_fits a b ->
  op_add_assign b a = (Thrown add_error, a).
Proof.
  intros Ha Hb Hfits.
  unfold op_add_assign, bind, get. cbv zeta.
  destruct (_ || _ || _) eqn:Hchk; [reflexivity|].
  apply (add_check_false a b Ha Hb) in Hchk. contradiction.
Qed.

Lemma op_sub_assign_returns a b :
  valid a -> valid b -> sub_fits a b ->
  op_sub_assign b a = (Returned tt, difference a b).
Proof.
  intros Ha Hb Hfits.
  pose proof (proj2 (sub_check_false a b) Hfits) as Hchk.
  unfold op_sub_assign, bind, get. rewrite Hchk.
  destruct a as [l s d], b as [l' s' d'].
  destruct Ha as (Hl & Hs & Hd), Hb as (Hl' & Hs' & Hd').
  destruct Hfits as (Fl & Fs & Fd). cbn in *.
  unfold difference, sub64. cbn.
  rewrite !u64_small; [reflexivity | unfold is_u64 in *; lia ..].
Qed.

Lemma op_sub_assign_throws a b :
  ~ sub_fits a b -> op_sub_assign b a = (Thrown sub_error, a).
Proof.
  intros Hfits. unfold op_sub_assign, bind, get.
  destruct (_ || _ || _) eqn:Hchk; [reflexivity|].
  apply sub_check_false in Hchk. contradiction.
Qed.

Lemma op_mul_assign_zero a :
  op_mul_assign 0 a = (Returned tt, mkMoneybag 0 0 0).
Proof.
  destruct a as [l s d]. unfold op_mul_assign, bind, ret, get. cbn.
  unfold mul64. now rewrite !Z.mul_0_r.
Qed.

Lemma op_mul_assign_returns a k :
  valid a -> is_u64 k -> mul_fits a k ->
  op_mul_assign k a = (Returned tt, multiple a k).
Proof.
  intros Ha Hk Hfits.
  destruct (Z.eq_dec k 0) as [-> | Hnz].
  - rewrite op_mul_assign_zero. unfold multiple. now rewrite !Z.mul_0_r.
  - assert (Hpos : 0 < k) by (unfold is_u64 in Hk; lia).
    pose proof (proj2 (mul_check_false a k Hpos) Hfits) as Hchk.
    unfold op_mul_assign, bind, get, ret. cbv zeta.
    rewrite (proj2 (Z.gtb_lt k 0)) by lia. rewrite Hchk.
    destruct a as [l s d]. destruct Ha as (Hl & Hs & Hd).
    destruct Hfits as (Fl & Fs & Fd). cbn in *.
    unfold multiple, mul64. cbn.
    rewrite !u64_small; [reflexivity | unfold is_u64 in *; nia ..].
Qed.

Lemma op_mul_assign_throws a k :
  0 < k -> ~ mul_fits a k -> op_mul_assign k a = (Thrown mul_error, a).
Proof.
  intros Hpos Hfits. unfold op_mul_assign, bind, get, ret. cbv zeta.
  rewrite (proj2 (Z.gtb_lt k 0)) by lia.
  destruct (_ || _ || _) eqn:Hchk; [reflexivity|].
  apply (mul_check_false a k Hpos) in Hchk. contradiction.
Qed.

Lemma mul_fits_zero a : mul_fits a 0.
Proof. unfold mul_fits, UINT64_MAX. rewrite !Z.mul_0_r. lia. Qed.

Lemma add_fits_dec a b : add_fits a b \/ ~ add_fits a b.
Proof. unfold add_fits. lia. Qed.

Lemma sub_fits_dec a b : sub_fits a b \/ ~ sub_fits a b.
Proof. unfold sub_fits. lia. Qed.

Lemma mul_fits_dec a k : mul_fits a k \/ ~ mul_fits a k.
Proof. unfold mul_fits. lia. Qed.

Lemma not_add_fits_iff a b :
  ~ add_fits a b <->
  livres b > UINT64_MAX - livres a \/
  soliduses b > UINT64_MAX - soliduses a \/
  deniers b > UINT64_MAX - deniers a.
Proof. unfold add_fits. lia. Qed.

Lemma not_sub_fits_iff a b :
  ~ sub_fits a b <->
  livres b > livres a \/ soliduses b > soliduses a \/ deniers b > deniers a.
Proof. unfold sub_fits. lia. Qed.

Lemma not_mul_fits_iff a k :
  ~ mul_fits a k <->
  livres a * k > UINT64_MAX \/ soliduses a * k > UINT64_MAX \/
  deniers a * k > UINT64_MAX.
Proof. unfold mul_fits. lia. Qed.

Lemma on_copy_returned this body r :
  body this = (Returned tt, r) -> on_copy this body = Returned r.
Proof. unfold on_copy. now intros ->. Qed.

Lemma on_copy_thrown this body e r :
  body this = (Thrown e, r) -> on_copy this body = Thrown e.
Proof. unfold on_copy. now intros ->. Qed.

(** Each binary operator either returns the exact result, which is
    again in range, or throws. *)
Lemma addition_sound a b :
  valid a -> valid b ->
  (add_fits a b /\ op_add a b = Returned (sum a b) /\ valid (sum a b)) \/
  op_add a b = Thrown add_error.
Proof.
  intros Ha Hb. destruct (add_fits_dec a b) as [F | F].
  - left. split; [assumption|]. split.
    + apply on_copy_returned. now apply op_add_assign_returns.
    + destruct Ha as (Hl & Hs & Hd), Hb as (Hl' & Hs' & Hd').
      destruct F as (Fl & Fs & Fd).
      unfold valid, sum, is_u64 in *. cbn. lia.
  - right. eapply on_copy_thrown. now apply op_add_assign_throws.
Qed.

Lemma multiplication_sound a k :
  valid a -> is_u64 k ->
  (mul_fits a k /\ op_mul a k = Returned (multiple a k)
   /\ valid (multiple a k)) \/
  op_mul a k = Thrown mul_error.
Proof.
  intros Ha Hk. destruct (mul_fits_dec a k) as [F | F].
  - left. split; [assumption|]. split.
    + apply on_copy_returned. now apply op_mul_assign_returns.
    + destruct Ha as (Hl & Hs & Hd). destruct F as (Fl & Fs & Fd).
      unfold valid, multiple, is_u64 in *. cbn. nia.
  - right. eapply on_copy_thrown. apply op_mul_assign_throws; [|assumption].
    destruct (Z.eq_dec k 0) as [-> | Hnz].
    + destruct F. apply mul_fits_zero.
    + unfold is_u64 in Hk. lia.
Qed.

(** ** Addition *)

(** C1: for counters in the [uint64_t] range, [a + b] and [a += b]
    return the component-wise sum exactly when every component of [b]
    is at most [MAX] minus the component of [a]; in every other case
    they throw [out_of_range] and return nothing.  Adding one denier
    to a bag whose deniers are at the maximum throws. *)
Theorem addition_checked (a b : Moneybag) :
  valid a -> valid b ->
  (add_fits a b <-> op_add a b = Returned (sum a b)) /\
  (add_fits a b <-> op_add_assign b a = (Returned tt, sum a b)) /\
  (~ add_fits a b <-> op_add a b = Thrown add_error) /\
  (~ add_fits a b <-> fst (op_add_assign b a) = Thrown add_error) /\
  (add_fits a b -> valid (sum a b)) /\
  (deniers a = UINT64_MAX -> op_add a Denier = Thrown add_error).
Proof.
  intros Ha Hb.
  assert (Hok : add_fits a b -> op_add_assign b a = (Returned tt, sum a b))
    by now apply op_add_assign_returns.
  assert (Hko : ~ add_fits a b -> op_add_assign b a = (Thrown add_error, a))
    by now apply op_add_assign_throws.
  split; [split | split; [split | split; [split | split; [split | split]]]].
  - intros H. apply on_copy_returned. auto.
  - intros H. destruct (add_fits_dec a b) as [F | F]; [assumption|].
    unfold op_add in H. rewrite (on_copy_thrown _ _ _ _ (Hko F)) in H.
    discriminate.
  - assumption.
  - intros H. destruct (add_fits_dec a b) as [F | F]; [assumption|].
    rewrite (Hko F) in H. discriminate.
  - intros H. eapply on_copy_thrown. eauto.
  - intros H F. unfold op_add in H.
    rewrite (on_copy_returned _ _ _ (Hok F)) in H. discriminate.
  - intros H. now rewrite (Hko H).
  - intros H F. rewrite (Hok F) in H. discriminate.
  - intros (Fl & Fs & Fd).
    destruct Ha as (Hl & Hs & Hd), Hb as (Hl' & Hs' & Hd').
    unfold valid, sum, is_u64 in *. cbn. lia.
  - intros Hmax. eapply on_copy_thrown.
    apply op_add_assign_throws; [assumption | | ].
    + unfold valid, Denier, is_u64, UINT64_MAX. cbn. lia.
    + unfold add_fits, Denier. cbn. lia.
Qed.

Lemma addition_checked_witness :
  op_add (mkMoneybag 1 2 3) (mkMoneybag 10 20 30)
  = Returned (mkMoneybag 11 22 33) /\
  op_add (mkMoneybag 0 0 UINT64_MAX) Denier = Thrown add_error.
Proof.
  split.
  - apply (addition_checked (mkMoneybag 1 2 3) (mkMoneybag 10 20 30));
      in_range.
  - apply (addition_checked (mkMoneybag 0 0 UINT64_MAX) Denier);
      unfold Denier; in_range.
Defined.

(** ** Subtraction *)

(** C2: for counters in the [uint64_t] range, [a - b] and [a -= b]
    throw [out_of_range] exactly when some component of [b] exceeds
    that of [a], and then leave [a] as it was; in every other case
    they return the component-wise difference.  Taking one denier
    from the empty bag throws. *)
Theorem subtraction_checked (a b : Moneybag) :
  valid a -> valid b ->
  (livres b > livres a \/ soliduses b > soliduses a \/ deniers b > deniers a
   <-> op_sub a b = Thrown sub_error) /\
  (livres b > livres a \/ soliduses b > soliduses a \/ deniers b > deniers a
   <-> op_sub_assign b a = (Thrown sub_error, a)) /\
  (sub_fits a b <-> op_sub a b = Returned (difference a b)) /\
  (sub_fits a b <-> op_sub_assign b a = (Returned tt, difference a b)) /\
  (sub_fits a b -> valid (difference a b)) /\
  op_sub (mkMoneybag 0 0 0) (mkMoneybag 0 0 1) = Thrown sub_error.
Proof.
  intros Ha Hb.
  assert (Hok : sub_fits a b ->
                op_sub_assign b a = (Returned tt, difference a b))
    by now apply op_sub_assign_returns.
  pose proof (op_sub_assign_throws a b) as Hko.
  rewrite <- !not_sub_fits_iff.
  split; [split | split; [split | split; [split | split; [split | split]]]].
  - intros H. eapply on_copy_thrown. eauto.
  - intros H F. unfold op_sub in H.
    rewrite (on_copy_returned _ _ _ (Hok F)) in H. discriminate.
  - assumption.
  - intros H F. rewrite (Hok F) in H. discriminate.
  - intros H. apply on_copy_returned. auto.
  - intros H. destruct (sub_fits_dec a b) as [F | F]; [assumption|].
    unfold op_sub in H. rewrite (on_copy_thrown _ _ _ _ (Hko F)) in H.
    discriminate.
  - assumption.
  - intros H. destruct (sub_fits_dec a b) as [F | F]; [assumption|].
    rewrite (Hko F) in H. discriminate.
  - intros (Fl & Fs & Fd).
    destruct Ha as (Hl & Hs & Hd), Hb as (Hl' & Hs' & Hd').
    unfold valid, difference, is_u64 in *. cbn. lia.
  - reflexivity.
Qed.

Lemma subtraction_checked_witness :
  op_sub (mkMoneybag 5 7 9) (mkMoneybag 1 7 4)
  = Returned (mkMoneybag 4 0 5) /\
  op_sub_assign (mkMoneybag 0 8 0) (mkMoneybag 5 7 9)
  = (Thrown sub_error, mkMoneybag 5 7 9).
Proof.
  split.
  - apply (subtraction_checked (mkMoneybag 5 7 9) (mkMoneybag 1 7 4));
      in_range.
  - apply (subtraction_checked (mkMoneybag 5 7 9) (mkMoneybag 0 8 0));
      in_range.
Defined.

(** ** Scalar multiplication *)

(** C6: for counters and a factor [k] in the [uint64_t] range,
    [a * k], [k * a] and [a *= k] return the bag with every component
    multiplied by [k] exactly when no product exceeds the maximum, and
    throw [out_of_range] otherwise; [k * a] is [a * k]; for [k > 0]
    the throw happens exactly when a component exceeds [MAX / k]; and
    [k = 0] always returns the empty bag. *)
Theorem multiplication_checked (a : Moneybag) (k : Z) :
  valid a -> is_u64 k ->
  (mul_fits a k <-> op_mul a k = Returned (multiple a k)) /\
  (mul_fits a k <-> op_mul_assign k a = (Returned tt, multiple a k)) /\
  (livres a * k > UINT64_MAX \/ soliduses a * k > UINT64_MAX \/
   deniers a * k > UINT64_MAX
   <-> op_mul a k = Thrown mul_error) /\
  (livres a * k > UINT64_MAX \/ soliduses a * k > UINT64_MAX \/
   deniers a * k > UINT64_MAX
   <-> fst (op_mul_assign k a) = Thrown mul_error) /\
  op_mul_left k a = op_mul a k /\
  (0 < k ->
   (op_mul a k = Thrown mul_error <->
    livres a > div64 UINT64_MAX k \/ soliduses a > div64 UINT64_MAX k \/
    deniers a > div64 UINT64_MAX k)) /\
  (mul_fits a k -> valid (multiple a k)) /\
  op_mul a 0 = Returned (mkMoneybag 0 0 0).
Proof.
  intros Ha Hk.
  assert (Hok : mul_fits a k ->
                op_mul_assign k a = (Returned tt, multiple a k))
    by now apply op_mul_assign_returns.
  assert (Hko : ~ mul_fits a k ->
                op_mul_assign k a = (Thrown mul_error, a)).
  { intros F. apply op_mul_assign_throws; [|assumption].
    destruct (Z.eq_dec k 0) as [-> | Hnz].
    - destruct F. apply mul_fits_zero.
    - unfold is_u64 in Hk. lia. }
  assert (Hthrow : ~ mul_fits a k <-> op_mul a k = Thrown mul_error).
  { split.
    - intros H. eapply on_copy_thrown. eauto.
    - intros H F. unfold op_mul in H.
      rewrite (on_copy_returned _ _ _ (Hok F)) in H. discriminate. }
  rewrite <- !not_mul_fits_iff.
  split; [split | split; [split | split; [exact Hthrow | split; [split |] ]]].
  - intros H. apply on_copy_returned. auto.
  - intros H. destruct (mul_fits_dec a k) as [F | F]; [assumption|].
    unfold op_mul in H. rewrite (on_copy_thrown _ _ _ _ (Hko F)) in H.
    discriminate.
  - assumption.
  - intros H. destruct (mul_fits_dec a k) as [F | F]; [assumption|].
    rewrite (Hko F) in H. discriminate.
  - intros H. now rewrite (Hko H).
  - intros H F. rewrite (Hok F) in H. discriminate.
  - split; [reflexivity | split; [| split]].
    + intros Hpos. rewrite <- Hthrow. unfold mul_fits.
      rewrite <- !(div64_MAX_le _ k Hpos). lia.
    + intros (Fl & Fs & Fd). destruct Ha as (Hl & Hs & Hd).
      unfold valid, multiple, is_u64 in *. cbn. nia.
    + apply on_copy_returned, op_mul_assign_zero.
Qed.

Lemma multiplication_checked_witness :
  op_mul_left 4 (mkMoneybag 1 2 3) = Returned (mkMoneybag 4 8 12) /\
  op_mul (mkMoneybag 0 0 (2 ^ 63)) 2 = Thrown mul_error.
Proof.
  split.
  - destruct (multiplication_checked (mkMoneybag 1 2 3) 4)
      as (H1 & _ & _ & _ & H5 & _); [in_range | in_range |].
    rewrite H5. apply H1. in_range.
  - destruct (multiplication_checked (mkMoneybag 0 0 (2 ^ 63)) 2)
      as (_ & _ & H3 & _); [in_range | in_range |].
    apply H3. in_range.
Defined.

(** ** Failure leaves the target untouched *)

(** C5: whenever [a += b], [a -= b] or [a *= k] throws, the object
    [a] the operator was called on holds exactly the three components
    it held before the call. *)
Theorem failed_assignment_keeps_target
  (a b : Moneybag) (k : Z) (e : exception) :
  (fst (op_add_assign b a) = Thrown e -> snd (op_add_assign b a) = a) /\
  (fst (op_sub_assign b a) = Thrown e -> snd (op_sub_assign b a) = a) /\
  (fst (op_mul_assign k a) = Thrown e -> snd (op_mul_assign k a) = a).
Proof.
  split; [| split].
  - unfold op_add_assign, bind, get. cbv zeta.
    destruct (_ || _ || _); [reflexivity | discriminate].
  - unfold op_sub_assign, bind, get.
    destruct (_ || _ || _); [reflexivity | discriminate].
  - unfold op_mul_assign, bind, get, ret. cbv zeta.
    destruct (k >? 0); [| discriminate].
    destruct (_ || _ || _); [reflexivity | discriminate].
Qed.

Lemma failed_assignment_keeps_target_witness :
  snd (op_add_assign (mkMoneybag 1 0 1) (mkMoneybag 0 7 UINT64_MAX))
  = mkMoneybag 0 7 UINT64_MAX /\
  snd (op_sub_assign (mkMoneybag 1 0 1) (mkMoneybag 0 7 UINT64_MAX))
  = mkMoneybag 0 7 UINT64_MAX /\
  snd (op_mul_assign 2 (mkMoneybag 0 7 UINT64_MAX))
  = mkMoneybag 0 7 UINT64_MAX.
Proof.
  pose proof (failed_assignment_keeps_target
                (mkMoneybag 0 7 UINT64_MAX) (mkMoneybag 1 0 1) 2) as H.
  destruct (H add_error) as (Hadd & _).
  destruct (H sub_error) as (_ & Hsub & _).
  destruct (H mul_error) as (_ & _ & Hmul).
  split; [| split].
  - apply Hadd. reflexivity.
  - apply Hsub. reflexivity.
  - apply Hmul. reflexivity.
Defined.

(** ** Comparison of bags *)

Lemma eq_check_true a b :
  (livres a =? livres b) && (soliduses a =? soliduses b)
  && (deniers a =? deniers b) = true <-> all_eq a b.
Proof.
  unfold all_eq. rewrite !andb_true_iff, !Z.eqb_eq. tauto.
Qed.

Lemma ge_check_true a b :
  (livres a >=? livres b) && (soliduses a >=? soliduses b)
  && (deniers a >=? deniers b) = true <-> all_ge a b.
Proof.
  unfold all_ge. rewrite !andb_true_iff, !Z.geb_le. lia.
Qed.

Lemma le_check_true a b :
  (livres a <=? livres b) && (soliduses a <=? soliduses b)
  && (deniers a <=? deniers b) = true <-> all_le a b.
Proof.
  unfold all_le. rewrite !andb_true_iff, !Z.leb_le. tauto.
Qed.

(** The outcome of [operator<=>], case by case. *)
Lemma op_cmp_cases a b :
  (all_eq a b /\ op_cmp a b = po_equivalent) \/
  (~ all_eq a b /\ all_ge a b /\ op_cmp a b = po_greater) \/
  (~ all_eq a b /\ ~ all_ge a b /\ all_le a b /\ op_cmp a b = po_less) \/
  (~ all_eq a b /\ ~ all_ge a b /\ ~ all_le a b /\
   op_cmp a b = po_unordered).
Proof.
  unfold op_cmp.
  destruct ((livres a =? livres b) && _ && _) eqn:E.
  { left. now apply eq_check_true in E. }
  assert (~ all_eq a b) by (rewrite <- eq_check_true, E; discriminate).
  right. destruct ((livres a >=? livres b) && _ && _) eqn:G.
  { left. now apply ge_check_true in G. }
  assert (~ all_ge a b) by (rewrite <- ge_check_true, G; discriminate).
  right. destruct ((livres a <=? livres b) && _ && _) eqn:L.
  { left. now apply le_check_true in L. }
  assert (~ all_le a b) by (rewrite <- le_check_true, L; discriminate).
  right. auto.
Qed.

(** C3: [a <=> b] is [equivalent] exactly when the three components
    are pairwise equal, [greater] exactly when every component of [a]
    is at least that of [b] and not all are equal, [less] exactly when
    every component of [a] is at most that of [b] and not all are
    equal, and [unordered] in every other case; [Moneybag(1,0,0)]
    against [Moneybag(0,1,0)] is [unordered]; and [a == b] is true
    exactly when [a <=> b] is [equivalent]. *)
Theorem comparison_is_componentwise (a b : Moneybag) :
  (op_cmp a b = po_equivalent <-> all_eq a b) /\
  (op_cmp a b = po_greater <-> all_ge a b /\ ~ all_eq a b) /\
  (op_cmp a b = po_less <-> all_le a b /\ ~ all_eq a b) /\
  (op_cmp a b = po_unordered <-> ~ all_ge a b /\ ~ all_le a b) /\
  op_cmp (mkMoneybag 1 0 0) (mkMoneybag 0 1 0) = po_unordered /\
  (op_eq a b = true <-> op_cmp a b = po_equivalent).
Proof.
  assert (Hge : all_eq a b -> all_ge a b) by (unfold all_eq, all_ge; lia).
  assert (Hle : all_eq a b -> all_le a b) by (unfold all_eq, all_le; lia).
  assert (Hanti : all_ge a b -> all_le a b -> all_eq a b)
    by (unfold all_eq, all_ge, all_le; lia).
  unfold op_eq.
  destruct (op_cmp_cases a b)
    as [(E & ->) | [(E & G & ->) | [(E & G & L & ->) | (E & G & L & ->)]]];
    cbn; (split; [| split; [| split; [| split; [| split; [reflexivity |]]]]]);
    (split; intros H; try discriminate H);
    first [reflexivity | tauto].
Qed.

(** ** Conversion to [Value] *)

Lemma worth_bound m : valid m -> 0 <= worth m <= 253 * UINT64_MAX.
Proof.
  intros (Hl & Hs & Hd). unfold worth, is_u64 in *. lia.
Qed.

Lemma Value_of_Moneybag_worth m :
  valid m -> value_in_denier (Value_of_Moneybag m) = worth m.
Proof.
  intros Hm. pose proof (worth_bound m Hm) as Hw.
  destruct Hm as (Hl & Hs & Hd).
  unfold Value_of_Moneybag, livre_number, solidus_number, denier_number.
  cbn [value_in_denier].
  rewrite !(u128_small (_ m)) by now apply is_u64_is_u128.
  unfold add128, mul128, worth in *.
  unfold is_u64, UINT64_MAX in *.
  rewrite (u128_small (livres m * 240)) by (unfold is_u128; lia).
  rewrite (u128_small (soliduses m * 12)) by (unfold is_u128; lia).
  rewrite (u128_small (livres m * 240 + soliduses m * 12))
    by (unfold is_u128; lia).
  apply u128_small. unfold is_u128. lia.
Qed.

(** C4: for counters in the [uint64_t] range, [Value(m)] holds exactly
    [livres * 240 + soliduses * 12 + deniers], a number below 2^128,
    so no [uint128_t] operation of the conversion wraps; the three
    unit bags are worth 240, 12 and 1, [Moneybag(1,1,1)] is worth 253,
    and the bag with all counters at the maximum is worth
    [max * 240 + max * 12 + max], printed in full by [std::string]. *)
Theorem conversion_exact (m : Moneybag) :
  valid m ->
  value_in_denier (Value_of_Moneybag m)
  = livres m * 240 + soliduses m * 12 + deniers m /\
  is_u128 (livres m * 240 + soliduses m * 12 + deniers m) /\
  value_in_denier (Value_of_Moneybag (mkMoneybag 1 0 0)) = 240 /\
  value_in_denier (Value_of_Moneybag (mkMoneybag 0 1 0)) = 12 /\
  value_in_denier (Value_of_Moneybag (mkMoneybag 0 0 1)) = 1 /\
  value_in_denier (Value_of_Moneybag (mkMoneybag 1 1 1)) = 253 /\
  value_in_denier (Value_of_Moneybag max_bag)
  = UINT64_MAX * 240 + UINT64_MAX * 12 + UINT64_MAX /\
  Value_str (Value_of_Moneybag max_bag) = "4667026250648516558595".
Proof.
  intros Hm. split; [now apply Value_of_Moneybag_worth |].
  split.
  { pose proof (worth_bound m Hm) as Hw.
    unfold worth, is_u128, UINT64_MAX in *. lia. }
  repeat split; vm_compute; reflexivity.
Qed.

Lemma conversion_exact_witness :
  value_in_denier (Value_of_Moneybag (mkMoneybag 3 36 7)) = 3 * 240 + 36 * 12 + 7.
Proof.
  apply (conversion_exact (mkMoneybag 3 36 7)). in_range.
Defined.

(** C8: for counters in the [uint64_t] range, when [a + b] returns a
    bag its [Value] is the integer sum of the values of [a] and [b],
    and when [k * a] (or [a * k]) returns a bag its [Value] is [k]
    times the value of [a]. *)
Theorem worth_linear (a b : Moneybag) (k : Z) :
  valid a -> valid b -> is_u64 k ->
  (forall c, op_add a b = Returned c ->
     value_in_denier (Value_of_Moneybag c)
     = value_in_denier (Value_of_Moneybag a)
       + value_in_denier (Value_of_Moneybag b)) /\
  (forall c, op_mul_left k a = Returned c ->
     value_in_denier (Value_of_Moneybag c)
     = k * value_in_denier (Value_of_Moneybag a)) /\
  (forall c, op_mul a k = Returned c ->
     value_in_denier (Value_of_Moneybag c)
     = k * value_in_denier (Value_of_Moneybag a)).
Proof.
  intros Ha Hb Hk.
  destruct (addition_sound a b Ha Hb) as [(Fa & Ea & Va) | Ta].
  all: destruct (multiplication_sound a k Ha Hk) as [(Fm & Em & Vm) | Tm].
  all: rewrite !(Value_of_Moneybag_worth a Ha), (Value_of_Moneybag_worth b Hb).
  all: unfold op_mul_left.
  all: split; [| split]; intros c Hc.
  all: try (rewrite Ta in Hc; discriminate Hc).
  all: try (rewrite Tm in Hc; discriminate Hc).
  all: try (rewrite Ea in Hc; injection Hc as <-;
            rewrite (Value_of_Moneybag_worth _ Va);
            unfold worth, sum; cbn; lia).
  all: rewrite Em in Hc; injection Hc as <-;
       rewrite (Value_of_Moneybag_worth _ Vm);
       unfold worth, multiple; cbn; lia.
Qed.

Lemma worth_linear_witness :
  value_in_denier (Value_of_Moneybag (mkMoneybag 4 6 8))
  = value_in_denier (Value_of_Moneybag (mkMoneybag 1 2 3))
    + value_in_denier (Value_of_Moneybag (mkMoneybag 3 4 5)) /\
  value_in_denier (Value_of_Moneybag (mkMoneybag 7 14 21))
  = 7 * value_in_denier (Value_of_Moneybag (mkMoneybag 1 2 3)).
Proof.
  destruct (worth_linear (mkMoneybag 1 2 3) (mkMoneybag 3 4 5) 7)
    as (Hadd & Hmul & _); try in_range.
  split.
  - apply Hadd. reflexivity.
  - apply Hmul. reflexivity.
Defined.

(** ** Construction of a [Value] from a raw count *)

(** C9 as stated does not hold: the raw count 2^64, one above the
    [uint64_t] range, is the content of no directly constructed
    [Value]; handed to the constructor it is first converted to the
    parameter type, and the [Value] built holds 0. *)
Lemma raw_count_limited_to_uint64 :
  (~ exists v, is_u64 v /\ value_in_denier (Value_of_uint64 v) = 2 ^ 64) /\
  value_in_denier (Value_of_uint64 (u64 (2 ^ 64))) = 0.
Proof.
  split; [| reflexivity].
  intros (v & Hv & H). cbn in H.
  rewrite (u128_small v (is_u64_is_u128 v Hv)) in H.
  unfold is_u64, UINT64_MAX in Hv. lia.
Qed.

(** C9, amended: [Value(v)] stores every raw count [v] of the
    [uint64_t] range unchanged in the wide integer, so what it holds
    never exceeds the [uint64_t] maximum; [Value()] holds zero. *)
Theorem raw_count_stored (v : Z) :
  is_u64 v ->
  value_in_denier (Value_of_uint64 v) = v /\
  value_in_denier (Value_of_uint64 v) <= UINT64_MAX /\
  value_in_denier Value_default = 0 /\
  Value_default = Value_of_uint64 0.
Proof.
  intros Hv. cbn.
  rewrite (u128_small v (is_u64_is_u128 v Hv)).
  unfold is_u64 in Hv. repeat split; lia.
Qed.

Lemma raw_count_stored_witness :
  value_in_denier (Value_of_uint64 UINT64_MAX) = UINT64_MAX.
Proof.
  apply (raw_count_stored UINT64_MAX). in_range.
Defined.

(** ** Comparison of values *)

(** C10: for every [Value] [w] and every [n] of the [uint64_t] range,
    [w <=> n] is [w <=> Value(n)] and [w == n] is [w == Value(n)]. *)
Theorem comparison_with_raw_count (w : Value) (n : Z) :
  is_u64 n ->
  Value_cmp_uint64 w n = Value_cmp w (Value_of_uint64 n) /\
  Value_eq_uint64 w n = Value_eq w (Value_of_uint64 n) /\
  (Value_eq_uint64 w n = true <-> Value_eq w (Value_of_uint64 n) = true).
Proof.
  intros Hn.
  assert (E : Value_cmp_uint64 w n = Value_cmp w (Value_of_uint64 n)).
  { unfold Value_cmp, Value_cmp_uint64, Value_of_uint64.
    cbn [value_in_denier].
    now rewrite (u128_small n (is_u64_is_u128 n Hn)). }
  unfold Value_eq_uint64, Value_eq. rewrite E.
  split; [reflexivity | split; [reflexivity | tauto]].
Qed.

Lemma comparison_with_raw_count_witness :
  Value_cmp_uint64 (Value_of_Moneybag (mkMoneybag 1 0 0)) 240
  = Value_cmp (Value_of_Moneybag (mkMoneybag 1 0 0)) (Value_of_uint64 240).
Proof.
  apply (comparison_with_raw_count (Value_of_Moneybag (mkMoneybag 1 0 0)) 240).
  in_range.
Defined.

(** ** Printing *)

Lemma append_assoc (s t u : string) : ((s ++ t) ++ u = s ++ (t ++ u))%string.
Proof.
  induction s as [| c s IH]; cbn; [reflexivity | now rewrite IH].
Qed.

(** C7 as stated does not hold: the bag [Moneybag(1,0,2)] is not
    printed with the noun [livre]. *)
Lemma one_livre_not_printed_livre :
  to_string (mkMoneybag 1 0 2) <> "(1 livre, 0 soliduses, 2 deniers)".
Proof. vm_compute. discriminate. Qed.

(** C7, amended: on a stream in its default format state, streaming
    a bag appends an opening parenthesis, the three counts in base ten
    each followed by its noun, separated by a comma and a space, and a
    closing parenthesis; the nouns are [livr], [solidus] and [denier]
    exactly when the count is 1 and [livres], [soliduses] and
    [deniers] otherwise; [Moneybag(1,0,2)] is printed
    [(1 livr, 0 soliduses, 2 deniers)]. *)
Theorem printing_selects_noun (m : Moneybag) :
  (forall os : ostream,
     op_shl os m
     = (os ++ "(" ++ counted "livr" "livres" (livres m) ++ ", "
           ++ counted "solidus" "soliduses" (soliduses m) ++ ", "
           ++ counted "denier" "deniers" (deniers m) ++ ")")%string) /\
  to_string m
  = ("(" ++ counted "livr" "livres" (livres m) ++ ", "
         ++ counted "solidus" "soliduses" (soliduses m) ++ ", "
         ++ counted "denier" "deniers" (deniers m) ++ ")")%string /\
  (forall singular plural count,
     (count = 1 -> noun singular plural count = singular) /\
     (count <> 1 -> noun singular plural count = plural)) /\
  to_string (mkMoneybag 1 0 2) = "(1 livr, 0 soliduses, 2 deniers)" /\
  to_string (mkMoneybag 2 1 1) = "(2 livres, 1 solidus, 1 denier)".
Proof.
  assert (Hos : forall os : ostream,
            op_shl os m
            = (os ++ "(" ++ counted "livr" "livres" (livres m) ++ ", "
                  ++ counted "solidus" "soliduses" (soliduses m) ++ ", "
                  ++ counted "denier" "deniers" (deniers m) ++ ")")%string).
  { intros os. unfold op_shl, put_string, put_uint64, counted, noun.
    rewrite !append_assoc.
    destruct (livres m =? 1), (soliduses m =? 1), (deniers m =? 1);
      reflexivity. }
  split; [exact Hos |].
  split; [exact (Hos ""%string) |].
  split; [| split; vm_compute; reflexivity].
  intros singular plural count. unfold noun. split.
  - intros ->. reflexivity.
  - intros H. now rewrite (proj2 (Z.eqb_neq count 1) H).
Qed.

(** * Further properties of the operators *)

(** ** Case analyses shared by the proofs below *)

Lemma op_add_cases a b :
  valid a -> valid b ->
  (add_fits a b /\ op_add a b = Returned (sum a b) /\ valid (sum a b)) \/
  (~ add_fits a b /\ op_add a b = Thrown add_error).
Proof.
  intros Ha Hb. destruct (add_fits_dec a b) as [F | F].
  - left. destruct (addition_sound a b Ha Hb) as [(_ & E & V) | E]; [auto |].
    unfold op_add in E.
    rewrite (on_copy_returned _ _ _ (op_add_assign_returns a b Ha Hb F)) in E.
    discriminate.
  - right. split; [assumption |].
    eapply on_copy_thrown. now apply op_add_assign_throws.
Qed.

Lemma op_sub_cases a b :
  valid a -> valid b ->
  (sub_fits a b /\ op_sub a b = Returned (difference a b)
   /\ valid (difference a b)) \/
  (~ sub_fits a b /\ op_sub a b = Thrown sub_error).
Proof.
  intros Ha Hb. destruct (sub_fits_dec a b) as [F | F].
  - left. split; [assumption |]. split.
    + apply on_copy_returned. now apply op_sub_assign_returns.
    + destruct Ha as (Hl & Hs & Hd), Hb as (Hl' & Hs' & Hd').
      destruct F as (Fl & Fs & Fd).
      unfold valid, difference, is_u64 in *. cbn. lia.
  - right. split; [assumption |].
    eapply on_copy_thrown. now apply op_sub_assign_throws.
Qed.

Lemma op_mul_cases a k :
  valid a -> is_u64 k ->
  (mul_fits a k /\ op_mul a k = Returned (multiple a k)
   /\ valid (multiple a k)) \/
  (~ mul_fits a k /\ 0 < k /\ op_mul a k = Thrown mul_error).
Proof.
  intros Ha Hk. destruct (mul_fits_dec a k) as [F | F].
  - left. destruct (multiplication_sound a k Ha Hk) as [(_ & E & V) | E];
      [auto |].
    unfold op_mul in E.
    rewrite (on_copy_returned _ _ _ (op_mul_assign_returns a k Ha Hk F)) in E.
    discriminate.
  - assert (Hpos : 0 < k).
    { destruct (Z.eq_dec k 0) as [-> | Hnz].
      - destruct F. apply mul_fits_zero.
      - unfold is_u64 in Hk. lia. }
    right. split; [assumption |]. split; [assumption |].
    eapply on_copy_thrown. now apply op_mul_assign_throws.
Qed.

Lemma Moneybag_eq a b :
  livres a = livres b -> soliduses a = soliduses b -> deniers a = deniers b ->
  a = b.
Proof. destruct a, b. cbn. now intros -> -> ->. Qed.

Lemma valid_nonneg m :
  valid m -> 0 <= livres m /\ 0 <= soliduses m /\ 0 <= deniers m.
Proof. unfold valid, is_u64. tauto. Qed.

Lemma valid_empty_bag : valid empty_bag.
Proof. in_range. Qed.

(** ** Addition is commutative and associative, failures included *)

(** X1: [a + b] and [b + a] have the same outcome: the same bag, or the
    same exception. *)
Theorem addition_commutative (a b : Moneybag) :
  valid a -> valid b -> op_add a b = op_add b a.
Proof.
  intros Ha Hb.
  destruct (op_add_cases a b Ha Hb) as [(F & -> & _) | (F & ->)];
    destruct (op_add_cases b a Hb Ha) as [(G & -> & _) | (G & ->)].
  - f_equal. apply Moneybag_eq; componentwise; lia.
  - exfalso. apply G. componentwise. lia.
  - exfalso. apply F. componentwise. lia.
  - reflexivity.
Qed.

Lemma addition_commutative_witness :
  op_add (mkMoneybag 1 2 3) (mkMoneybag 0 0 UINT64_MAX)
  = op_add (mkMoneybag 0 0 UINT64_MAX) (mkMoneybag 1 2 3).
Proof.
  apply (addition_commutative (mkMoneybag 1 2 3) (mkMoneybag 0 0 UINT64_MAX));
    in_range.
Defined.

(** X2: [(a + b) + c] and [a + (b + c)] have the same outcome: when one
    grouping overflows, so does the other. *)
Theorem addition_associative (a b c : Moneybag) :
  valid a -> valid b -> valid c ->
  and_then (op_add a b) (fun ab => op_add ab c)
  = and_then (op_add b c) (fun bc => op_add a bc).
Proof.
  intros Ha Hb Hc.
  pose proof (valid_nonneg a Ha) as Na.
  pose proof (valid_nonneg b Hb) as Nb.
  pose proof (valid_nonneg c Hc) as Nc.
  destruct (op_add_cases a b Ha Hb) as [(F & -> & V) | (F & ->)];
    destruct (op_add_cases b c Hb Hc) as [(G & -> & W) | (G & ->)];
    cbn [and_then].
  - destruct (op_add_cases (sum a b) c V Hc) as [(F' & -> & _) | (F' & ->)];
      destruct (op_add_cases a (sum b c) Ha W) as [(G' & -> & _) | (G' & ->)].
    + f_equal. apply Moneybag_eq; componentwise; lia.
    + exfalso. apply G'. clear V W Ha Hb Hc. componentwise. lia.
    + exfalso. apply F'. clear V W Ha Hb Hc. componentwise. lia.
    + reflexivity.
  - destruct (op_add_cases (sum a b) c V Hc) as [(F' & -> & _) | (F' & ->)];
      [| reflexivity].
    exfalso. apply G. clear V Ha Hb Hc. componentwise. lia.
  - destruct (op_add_cases a (sum b c) Ha W) as [(G' & -> & _) | (G' & ->)];
      [| reflexivity].
    exfalso. apply F. clear W Ha Hb Hc. componentwise. lia.
  - reflexivity.
Qed.

Lemma addition_associative_witness :
  and_then (op_add (mkMoneybag 1 2 3) (mkMoneybag 4 5 6))
           (fun ab => op_add ab (mkMoneybag 7 8 9))
  = and_then (op_add (mkMoneybag 4 5 6) (mkMoneybag 7 8 9))
             (fun bc => op_add (mkMoneybag 1 2 3) bc).
Proof.
  apply (addition_associative (mkMoneybag 1 2 3) (mkMoneybag 4 5 6)
           (mkMoneybag 7 8 9)); in_range.
Defined.

(** ** Neutral elements and self-operations *)

(** X3: Adding or subtracting the empty bag and multiplying by one return
    the bag itself; a bag minus itself is the empty bag; and [a + a]
    returns a bag exactly when [a * 2] returns the same bag. *)
Theorem neutral_elements (a : Moneybag) :
  valid a ->
  op_add a empty_bag = Returned a /\
  op_add empty_bag a = Returned a /\
  op_sub a empty_bag = Returned a /\
  op_sub a a = Returned empty_bag /\
  op_mul a 1 = Returned a /\
  (forall c, op_add a a = Returned c <-> op_mul a 2 = Returned c).
Proof.
  intros Ha. pose proof valid_empty_bag as H0.
  assert (H1 : is_u64 1) by in_range.
  assert (H2 : is_u64 2) by in_range.
  pose proof (valid_nonneg a Ha) as Na.
  split; [| split; [| split; [| split; [| split]]]].
  - destruct (op_add_cases a empty_bag Ha H0) as [(F & -> & _) | (F & _)].
    + f_equal. apply Moneybag_eq; componentwise; lia.
    + exfalso. apply F. componentwise. lia.
  - destruct (op_add_cases empty_bag a H0 Ha) as [(F & -> & _) | (F & _)].
    + f_equal. apply Moneybag_eq; componentwise; lia.
    + exfalso. apply F. componentwise. lia.
  - destruct (op_sub_cases a empty_bag Ha H0) as [(F & -> & _) | (F & _)].
    + f_equal. apply Moneybag_eq; componentwise; lia.
    + exfalso. apply F. componentwise. lia.
  - destruct (op_sub_cases a a Ha Ha) as [(F & -> & _) | (F & _)].
    + f_equal. apply Moneybag_eq; componentwise; lia.
    + exfalso. apply F. componentwise. lia.
  - destruct (op_mul_cases a 1 Ha H1) as [(F & -> & _) | (F & _)].
    + f_equal. apply Moneybag_eq; componentwise; lia.
    + exfalso. apply F. componentwise. lia.
  - intros c.
    destruct (op_add_cases a a Ha Ha) as [(F & -> & _) | (F & ->)];
      destruct (op_mul_cases a 2 Ha H2) as [(G & -> & _) | (G & _ & ->)].
    + assert (E : sum a a = multiple a 2)
        by (apply Moneybag_eq; componentwise; lia).
      rewrite E. tauto.
    + exfalso. apply G. componentwise. lia.
    + exfalso. apply F. componentwise. lia.
    + split; discriminate.
Qed.

Lemma neutral_elements_witness :
  op_sub (mkMoneybag 4 5 6) (mkMoneybag 4 5 6) = Returned empty_bag.
Proof.
  apply (neutral_elements (mkMoneybag 4 5 6)). in_range.
Defined.

(** ** Addition and subtraction undo each other *)

(** A call reads its argument as a snapshot taken on entry: each
    statement of the body reads a field that no earlier statement has
    written, also when the argument is the object itself. *)
Lemma op_add_assign_ref_other m a :
  op_add_assign_ref (other m) a = op_add_assign m a.
Proof.
  unfold op_add_assign_ref, op_add_assign, bind, read, ret, get. cbv zeta.
  destruct (_ || _ || _); reflexivity.
Qed.

Lemma op_add_assign_ref_self a :
  op_add_assign_ref self a = op_add_assign a a.
Proof.
  unfold op_add_assign_ref, op_add_assign, bind, read, ret, get. cbv zeta.
  destruct (_ || _ || _); reflexivity.
Qed.

Lemma op_sub_assign_ref_other m a :
  op_sub_assign_ref (other m) a = op_sub_assign m a.
Proof.
  unfold op_sub_assign_ref, op_sub_assign, bind, read, ret, get.
  destruct (_ || _ || _); reflexivity.
Qed.

Lemma op_sub_assign_ref_self a :
  op_sub_assign_ref self a = op_sub_assign a a.
Proof.
  unfold op_sub_assign_ref, op_sub_assign, bind, read, ret, get.
  destruct (_ || _ || _); reflexivity.
Qed.

(** X4: when [a + b] does not overflow, [(a + b) - b] returns [a],
    and, [b] being an object other than [a], the statements
    [a += b; a -= b;] leave [a] as it was; when no component of [b]
    exceeds that of [a], [(a - b) + b] returns [a] and, [b] being an
    object other than [a], [a -= b; a += b;] leave [a] as it was.
    With [a] itself as the argument the second call sees the doubled
    bag: [a += a; a -= a;] leaves [a] empty when [a + a] does not
    overflow, and throws with [a] unchanged when it does. *)
Theorem add_sub_round_trip (a b : Moneybag) :
  valid a -> valid b ->
  (add_fits a b ->
   and_then (op_add a b) (fun c => op_sub c b) = Returned a /\
   (op_add_assign_ref (other b) ;; op_sub_assign_ref (other b)) a
   = (Returned tt, a)) /\
  (sub_fits a b ->
   and_then (op_sub a b) (fun c => op_add c b) = Returned a /\
   (op_sub_assign_ref (other b) ;; op_add_assign_ref (other b)) a
   = (Returned tt, a)) /\
  (add_fits a a ->
   (op_add_assign_ref self ;; op_sub_assign_ref self) a
   = (Returned tt, empty_bag)) /\
  (~ add_fits a a ->
   (op_add_assign_ref self ;; op_sub_assign_ref self) a
   = (Thrown add_error, a)).
Proof.
  intros Ha Hb.
  pose proof (valid_nonneg a Ha) as Na.
  pose proof (valid_nonneg b Hb) as Nb.
  split; [| split; [| split]]; intros F.
  - destruct (op_add_cases a b Ha Hb) as [(_ & E & V) | (G & _)];
      [| contradiction].
    assert (S : sub_fits (sum a b) b) by (clear V; componentwise; lia).
    assert (D : difference (sum a b) b = a)
      by (apply Moneybag_eq; componentwise; lia).
    split.
    + rewrite E. cbn [and_then].
      destruct (op_sub_cases (sum a b) b V Hb) as [(_ & -> & _) | (G & _)];
        [| contradiction].
      now rewrite D.
    + unfold bind at 1.
      rewrite op_add_assign_ref_other, (op_add_assign_returns a b Ha Hb F).
      rewrite op_sub_assign_ref_other.
      rewrite (op_sub_assign_returns (sum a b) b V Hb S). now rewrite D.
  - destruct (op_sub_cases a b Ha Hb) as [(_ & E & V) | (G & _)];
      [| contradiction].
    assert (S : add_fits (difference a b) b)
      by (clear V; componentwise; lia).
    assert (D : sum (difference a b) b = a)
      by (apply Moneybag_eq; componentwise; lia).
    split.
    + rewrite E. cbn [and_then].
      destruct (op_add_cases (difference a b) b V Hb)
        as [(_ & -> & _) | (G & _)]; [| contradiction].
      now rewrite D.
    + unfold bind at 1.
      rewrite op_sub_assign_ref_other, (op_sub_assign_returns a b Ha Hb F).
      rewrite op_add_assign_ref_other.
      rewrite (op_add_assign_returns (difference a b) b V Hb S).
      now rewrite D.
  - destruct (op_add_cases a a Ha Ha) as [(_ & _ & V) | (G & _)];
      [| contradiction].
    assert (S : sub_fits (sum a a) (sum a a)) by (clear V; componentwise; lia).
    assert (D : difference (sum a a) (sum a a) = empty_bag)
      by (apply Moneybag_eq; componentwise; lia).
    unfold bind at 1.
    rewrite op_add_assign_ref_self, (op_add_assign_returns a a Ha Ha F).
    rewrite op_sub_assign_ref_self.
    rewrite (op_sub_assign_returns (sum a a) (sum a a) V V S). now rewrite D.
  - unfold bind at 1.
    rewrite op_add_assign_ref_self.
    now rewrite (op_add_assign_throws a a Ha Ha F).
Qed.

Lemma add_sub_round_trip_witness :
  (op_add_assign_ref (other (mkMoneybag 9 0 (UINT64_MAX - 3))) ;;
   op_sub_assign_ref (other (mkMoneybag 9 0 (UINT64_MAX - 3))))
    (mkMoneybag 1 2 3)
  = (Returned tt, mkMoneybag 1 2 3) /\
  (op_add_assign_ref self ;; op_sub_assign_ref self) (mkMoneybag 1 2 3)
  = (Returned tt, empty_bag).
Proof.
  destruct (add_sub_round_trip (mkMoneybag 1 2 3)
              (mkMoneybag 9 0 (UINT64_MAX - 3)))
    as (Hother & _ & Hself & _); [in_range | in_range |].
  split.
  - apply Hother. in_range.
  - apply Hself. in_range.
Defined.

(** ** Multiplication distributes and composes *)

(** X5: Whenever [(a + b) * k] returns a bag, [a * k + b * k] returns the
    same bag; for [k > 0] the converse holds as well. *)
Theorem multiplication_distributes (a b : Moneybag) (k : Z) :
  valid a -> valid b -> is_u64 k ->
  forall r,
    (and_then (op_add a b) (fun s => op_mul s k) = Returned r ->
     and_then (op_mul a k) (fun x =>
       and_then (op_mul b k) (fun y => op_add x y)) = Returned r) /\
    (0 < k ->
     and_then (op_mul a k) (fun x =>
       and_then (op_mul b k) (fun y => op_add x y)) = Returned r ->
     and_then (op_add a b) (fun s => op_mul s k) = Returned r).
Proof.
  intros Ha Hb Hk r.
  pose proof (valid_nonneg a Ha) as Na.
  pose proof (valid_nonneg b Hb) as Nb.
  assert (Nk : 0 <= k <= UINT64_MAX) by exact Hk.
  assert (E : sum (multiple a k) (multiple b k) = multiple (sum a b) k)
    by (apply Moneybag_eq; componentwise; lia).
  destruct (op_add_cases a b Ha Hb) as [(F & -> & V) | (F & ->)];
    destruct (op_mul_cases a k Ha Hk) as [(Ga & -> & Va) | (Ga & Pa & ->)];
    destruct (op_mul_cases b k Hb Hk) as [(Gb & -> & Vb) | (Gb & Pb & ->)];
    cbn [and_then];
    try destruct (op_mul_cases (sum a b) k V Hk)
      as [(G & -> & _) | (G & P & ->)];
    try destruct (op_add_cases (multiple a k) (multiple b k) Va Vb)
      as [(H & -> & _) | (H & ->)];
    rewrite ?E;
    (split; [intros R | intros Hpos R]); try discriminate R; try exact R;
    exfalso;
    clear E; try clear V; try clear Va; try clear Vb; clear Ha Hb Hk;
    componentwise;
    first [apply H | apply G | apply Ga | apply Gb | apply F]; nia.
Qed.

Lemma multiplication_distributes_witness :
  and_then (op_mul (mkMoneybag 1 2 3) 5) (fun x =>
    and_then (op_mul (mkMoneybag 4 0 6) 5) (fun y => op_add x y))
  = Returned (mkMoneybag 25 10 45).
Proof.
  apply (multiplication_distributes (mkMoneybag 1 2 3) (mkMoneybag 4 0 6) 5);
    try in_range.
  reflexivity.
Defined.

(** X6: Whenever [(a * j) * k] returns a bag and [j * k] is itself a
    [uint64_t] value, [a * (j * k)] returns the same bag. *)
Theorem multiplication_composes (a : Moneybag) (j k : Z) :
  valid a -> is_u64 j -> is_u64 k -> is_u64 (j * k) ->
  forall r,
    and_then (op_mul a j) (fun b => op_mul b k) = Returned r ->
    op_mul a (j * k) = Returned r.
Proof.
  intros Ha Hj Hk Hjk r.
  pose proof (valid_nonneg a Ha) as Na.
  assert (E : multiple (multiple a j) k = multiple a (j * k))
    by (apply Moneybag_eq; componentwise; lia).
  destruct (op_mul_cases a j Ha Hj) as [(F & -> & V) | (F & P & ->)];
    cbn [and_then]; [| discriminate].
  destruct (op_mul_cases (multiple a j) k V Hk)
    as [(G & -> & _) | (G & P & ->)]; [| discriminate].
  intros R. rewrite E in R. rewrite <- R.
  destruct (op_mul_cases a (j * k) Ha Hjk) as [(H & -> & _) | (H & _ & _)];
    [reflexivity |].
  exfalso. apply H. clear E V Ha Hj Hk Hjk. componentwise.
  rewrite !Z.mul_assoc. exact G.
Qed.

Lemma multiplication_composes_witness :
  op_mul (mkMoneybag 1 2 3) (4 * 5) = Returned (mkMoneybag 20 40 60).
Proof.
  apply (multiplication_composes (mkMoneybag 1 2 3) 4 5); try in_range.
  reflexivity.
Defined.

(** ** Subtraction and the ordering *)

Lemma op_sub_returns_iff a b :
  (exists c, op_sub a b = Returned c) <-> sub_fits a b.
Proof.
  unfold op_sub, on_copy, op_sub_assign, bind, get.
  destruct (_ || _ || _) eqn:Hchk.
  - split.
    + intros (c & H). discriminate H.
    + intros F. apply sub_check_false in F. congruence.
  - split.
    + intros _. now apply sub_check_false.
    + intros _. cbn. eauto.
Qed.

Lemma op_cmp_iff a b :
  (op_cmp a b = po_equivalent <-> all_eq a b) /\
  (op_cmp a b = po_greater <-> all_ge a b /\ ~ all_eq a b) /\
  (op_cmp a b = po_less <-> all_le a b /\ ~ all_eq a b) /\
  (op_cmp a b = po_unordered <-> ~ all_ge a b /\ ~ all_le a b).
Proof.
  assert (Hge : all_eq a b -> all_ge a b) by (unfold all_eq, all_ge; lia).
  assert (Hle : all_eq a b -> all_le a b) by (unfold all_eq, all_le; lia).
  assert (Hanti : all_ge a b -> all_le a b -> all_eq a b)
    by (unfold all_eq, all_ge, all_le; lia).
  destruct (op_cmp_cases a b)
    as [(E & ->) | [(E & G & ->) | [(E & G & L & ->) | (E & G & L & ->)]]];
    (split; [| split; [| split]]);
    (split; intros H; try discriminate H);
    first [reflexivity | tauto].
Qed.

(** X7: [a - b] returns a bag exactly when [a <=> b] is [greater] or
    [equivalent], and throws exactly when it is [less] or
    [unordered]. *)
Theorem subtraction_defined_iff_not_below (a b : Moneybag) :
  ((exists c, op_sub a b = Returned c) <->
   op_cmp a b = po_greater \/ op_cmp a b = po_equivalent) /\
  (op_sub a b = Thrown sub_error <->
   op_cmp a b = po_less \/ op_cmp a b = po_unordered).
Proof.
  destruct (op_cmp_iff a b) as (Ce & Cg & Cl & Cu).
  assert (S : sub_fits a b <-> all_ge a b)
    by (unfold sub_fits, all_ge; lia).
  assert (T : op_sub a b = Thrown sub_error <-> ~ sub_fits a b).
  { split.
    - intros H F. apply op_sub_returns_iff in F. destruct F as (c & F).
      congruence.
    - intros F. eapply on_copy_thrown. now apply op_sub_assign_throws. }
  rewrite T, op_sub_returns_iff, S, Ce, Cg, Cl, Cu.
  unfold all_ge, all_le, all_eq. lia.
Qed.

(** ** The ordering of bags is a partial order *)

(** X8: [operator==] is equality of the three counters; [<=>] is
    reflexive; swapping the operands swaps [less] and [greater] and
    keeps [equivalent] and [unordered]; [less] and [greater] are
    transitive. *)
Theorem comparison_partial_order (a b c : Moneybag) :
  (op_eq a b = true <-> a = b) /\
  op_cmp a a = po_equivalent /\
  (op_cmp a b = po_greater <-> op_cmp b a = po_less) /\
  (op_cmp a b = po_equivalent <-> op_cmp b a = po_equivalent) /\
  (op_cmp a b = po_unordered <-> op_cmp b a = po_unordered) /\
  (op_cmp a b = po_less -> op_cmp b c = po_less -> op_cmp a c = po_less) /\
  (op_cmp a b = po_greater -> op_cmp b c = po_greater ->
   op_cmp a c = po_greater).
Proof.
  destruct (op_cmp_iff a b) as (Ce & Cg & Cl & Cu).
  destruct (op_cmp_iff b a) as (Ce' & Cg' & Cl' & Cu').
  destruct (op_cmp_iff b c) as (_ & Bg & Bl & _).
  destruct (op_cmp_iff a c) as (_ & Ag & Al & _).
  destruct (op_cmp_iff a a) as (Re & _).
  split; [| split; [| split; [| split; [| split; [| split]]]]].
  - unfold op_eq. split.
    + intros H. destruct (op_cmp a b); try discriminate H.
      destruct Ce as (Ce & _). destruct (Ce eq_refl) as (El & Es & Ed).
      now apply Moneybag_eq.
    + intros <-. rewrite (proj2 Re); [reflexivity |].
      unfold all_eq. auto.
  - apply Re. unfold all_eq. auto.
  - rewrite Cg, Cl'. unfold all_ge, all_le, all_eq. lia.
  - rewrite Ce, Ce'. unfold all_eq. lia.
  - rewrite Cu, Cu'. unfold all_ge, all_le. lia.
  - rewrite Cl, Bl, Al. unfold all_le, all_eq. lia.
  - rewrite Cg, Bg, Ag. unfold all_ge, all_eq. lia.
Qed.

Lemma comparison_partial_order_witness :
  op_cmp (mkMoneybag 1 2 3) (mkMoneybag 2 5 3) = po_less.
Proof.
  apply (comparison_partial_order
           (mkMoneybag 1 2 3) (mkMoneybag 2 2 3) (mkMoneybag 2 5 3));
    reflexivity.
Defined.

(** X9: Adding a bag never takes coins away: when [a + b] returns [c],
    [c <=> a] is [greater] or [equivalent], and it is [equivalent]
    exactly when [b] converts to [false]. *)
Theorem addition_increases (a b c : Moneybag) :
  valid a -> valid b -> op_add a b = Returned c ->
  (op_cmp c a = po_greater \/ op_cmp c a = po_equivalent) /\
  (op_cmp c a = po_equivalent <-> op_bool b = false).
Proof.
  intros Ha Hb H.
  pose proof (valid_nonneg b Hb) as Nb.
  destruct (op_add_cases a b Ha Hb) as [(_ & E & _) | (_ & E)];
    rewrite E in H; [| discriminate]. injection H as <-.
  destruct (op_cmp_iff (sum a b) a) as (Ce & Cg & _).
  unfold op_bool. rewrite Ce, Cg, !orb_false_iff, !Z.gtb_ltb, !Z.ltb_ge.
  unfold all_ge, all_eq, sum. cbn [livres soliduses deniers]. lia.
Qed.

Lemma addition_increases_witness :
  op_cmp (mkMoneybag 1 2 4) (mkMoneybag 1 2 3) = po_greater \/
  op_cmp (mkMoneybag 1 2 4) (mkMoneybag 1 2 3) = po_equivalent.
Proof.
  apply (addition_increases (mkMoneybag 1 2 3) Denier (mkMoneybag 1 2 4));
    [unfold Denier; in_range .. | reflexivity].
Defined.

(** X10: Adding the same bag to both operands, or multiplying both by the
    same positive factor, does not change how they compare. *)
Theorem comparison_invariant (a b c a' b' : Moneybag) (k : Z) :
  valid a -> valid b -> valid c -> is_u64 k ->
  (op_add a c = Returned a' -> op_add b c = Returned b' ->
   op_cmp a' b' = op_cmp a b) /\
  (0 < k -> op_mul a k = Returned a' -> op_mul b k = Returned b' ->
   op_cmp a' b' = op_cmp a b).
Proof.
  intros Ha Hb Hc Hk.
  assert (same : forall x y x' y',
            (all_eq x' y' <-> all_eq x y) ->
            (all_ge x' y' <-> all_ge x y) ->
            (all_le x' y' <-> all_le x y) ->
            op_cmp x' y' = op_cmp x y).
  { intros x y x' y' He Hg Hl.
    destruct (op_cmp_iff x y) as (Ce & Cg & Cl & Cu).
    destruct (op_cmp_iff x' y') as (Ce' & Cg' & Cl' & Cu').
    destruct (op_cmp x y).
    - apply Cl'. rewrite He, Hl. now apply Cl.
    - apply Ce'. rewrite He. now apply Ce.
    - apply Cg'. rewrite He, Hg. now apply Cg.
    - apply Cu'. rewrite Hg, Hl. now apply Cu. }
  split.
  - intros A B.
    destruct (op_add_cases a c Ha Hc) as [(_ & E & _) | (_ & E)];
      rewrite E in A; [| discriminate]. injection A as <-.
    destruct (op_add_cases b c Hb Hc) as [(_ & E' & _) | (_ & E')];
      rewrite E' in B; [| discriminate]. injection B as <-.
    apply same; unfold all_eq, all_ge, all_le, sum;
      cbn [livres soliduses deniers]; lia.
  - intros Hpos A B.
    destruct (op_mul_cases a k Ha Hk) as [(_ & E & _) | (_ & _ & E)];
      rewrite E in A; [| discriminate]. injection A as <-.
    destruct (op_mul_cases b k Hb Hk) as [(_ & E' & _) | (_ & _ & E')];
      rewrite E' in B; [| discriminate]. injection B as <-.
    apply same; unfold all_eq, all_ge, all_le, multiple;
      cbn [livres soliduses deniers]; nia.
Qed.

Lemma comparison_invariant_witness :
  op_cmp (mkMoneybag 3 3 3) (mkMoneybag 2 4 3)
  = op_cmp (mkMoneybag 1 1 1) (mkMoneybag 0 2 1).
Proof.
  refine (proj1 (comparison_invariant (mkMoneybag 1 1 1) (mkMoneybag 0 2 1)
                   (mkMoneybag 2 2 2) (mkMoneybag 3 3 3) (mkMoneybag 2 4 3) 1
                   _ _ _ _) _ _);
    try in_range; reflexivity.
Defined.

(** ** Conversion to [bool] *)

(** X11: A bag with counters in range converts to [false] exactly when it
    is the empty bag, exactly when its [Value] is zero; it converts to
    [true] exactly when it compares [greater] than the empty bag. *)
Theorem bool_conversion (m : Moneybag) :
  valid m ->
  (op_bool m = false <-> m = empty_bag) /\
  (op_bool m = false <-> value_in_denier (Value_of_Moneybag m) = 0) /\
  (op_bool m = true <-> op_cmp m empty_bag = po_greater).
Proof.
  intros Hm. pose proof (valid_nonneg m Hm) as Nm.
  rewrite (Value_of_Moneybag_worth m Hm).
  destruct (op_cmp_iff m empty_bag) as (_ & Cg & _).
  rewrite Cg, <- not_false_iff_true.
  unfold op_bool. rewrite !orb_false_iff, !Z.gtb_ltb, !Z.ltb_ge.
  unfold all_ge, all_eq, worth, empty_bag. cbn [livres soliduses deniers].
  split; [| split; lia].
  split.
  - intros H. apply Moneybag_eq; cbn; lia.
  - intros ->. cbn. lia.
Qed.

Lemma bool_conversion_witness :
  op_bool (mkMoneybag 0 0 0) = false /\ op_bool (mkMoneybag 0 3 0) = true.
Proof.
  split.
  - apply (bool_conversion (mkMoneybag 0 0 0)); [in_range | reflexivity].
  - apply (bool_conversion (mkMoneybag 0 3 0)); [in_range | reflexivity].
Defined.

(** ** Building bags from the unit constants *)

(** X12: For counts in the [uint64_t] range,
    [l * Livre + s * Solidus + d * Denier] never throws and is
    [Moneybag(l, s, d)]. *)
Theorem unit_constants_span (l s d : Z) :
  is_u64 l -> is_u64 s -> is_u64 d ->
  of_units l s d = Returned (mkMoneybag l s d).
Proof.
  intros Hl Hs Hd.
  assert (VL : valid Livre) by (unfold Livre; in_range).
  assert (VS : valid Solidus) by (unfold Solidus; in_range).
  assert (VD : valid Denier) by (unfold Denier; in_range).
  unfold of_units, op_mul_left.
  destruct (op_mul_cases Livre l VL Hl) as [(_ & -> & Vl) | (F & _)];
    [| exfalso; apply F; unfold Livre; componentwise; lia].
  destruct (op_mul_cases Solidus s VS Hs) as [(_ & -> & Vs) | (F & _)];
    [| exfalso; apply F; unfold Solidus; componentwise; lia].
  destruct (op_mul_cases Denier d VD Hd) as [(_ & -> & Vd) | (F & _)];
    [| exfalso; apply F; unfold Denier; componentwise; lia].
  cbn [and_then].
  destruct (op_add_cases _ _ Vl Vs) as [(_ & -> & Vls) | (F & _)];
    [| exfalso; apply F; clear Vl Vs Vd; unfold Livre, Solidus;
       componentwise; lia].
  cbn [and_then].
  destruct (op_add_cases _ _ Vls Vd) as [(_ & -> & _) | (F & _)];
    [| exfalso; apply F; clear Vl Vs Vd Vls; unfold Livre, Solidus, Denier;
       componentwise; lia].
  f_equal. unfold Livre, Solidus, Denier.
  apply Moneybag_eq; componentwise; lia.
Qed.

Lemma unit_constants_span_witness :
  of_units 5 3 UINT64_MAX = Returned (mkMoneybag 5 3 UINT64_MAX).
Proof.
  apply (unit_constants_span 5 3 UINT64_MAX); in_range.
Defined.

(** ** Conversion and the two orderings *)

Lemma Value_cmp_iff v w :
  (Value_cmp v w = wo_less <-> value_in_denier v < value_in_denier w) /\
  (Value_cmp v w = wo_equivalent <-> value_in_denier v = value_in_denier w) /\
  (Value_cmp v w = wo_greater <-> value_in_denier v > value_in_denier w).
Proof.
  unfold Value_cmp.
  destruct (Z.gtb_spec (value_in_denier v) (value_in_denier w)) as [G | G];
    [| destruct (Z.ltb_spec (value_in_denier v) (value_in_denier w))
         as [L | L]];
    (split; [| split]); (split; intros H; try discriminate H);
    first [reflexivity | lia].
Qed.

(** X13: The conversion respects the ordering of bags: a bag that compares
    [less] ([greater], [equivalent]) has the [less] ([greater],
    [equivalent]) [Value]. *)
Theorem conversion_monotone (a b : Moneybag) :
  valid a -> valid b ->
  (op_cmp a b = po_less ->
   Value_cmp (Value_of_Moneybag a) (Value_of_Moneybag b) = wo_less) /\
  (op_cmp a b = po_greater ->
   Value_cmp (Value_of_Moneybag a) (Value_of_Moneybag b) = wo_greater) /\
  (op_cmp a b = po_equivalent ->
   Value_cmp (Value_of_Moneybag a) (Value_of_Moneybag b) = wo_equivalent).
Proof.
  intros Ha Hb.
  destruct (op_cmp_iff a b) as (Ce & Cg & Cl & _).
  destruct (Value_cmp_iff (Value_of_Moneybag a) (Value_of_Moneybag b))
    as (Vl & Ve & Vg).
  rewrite Ce, Cg, Cl, Vl, Ve, Vg.
  rewrite (Value_of_Moneybag_worth a Ha), (Value_of_Moneybag_worth b Hb).
  unfold all_eq, all_ge, all_le, worth. lia.
Qed.

Lemma conversion_monotone_witness :
  Value_cmp (Value_of_Moneybag (mkMoneybag 1 2 3))
            (Value_of_Moneybag (mkMoneybag 1 5 3)) = wo_less.
Proof.
  apply (conversion_monotone (mkMoneybag 1 2 3) (mkMoneybag 1 5 3));
    [in_range | in_range | reflexivity].
Defined.

(** X14: When [a - b] returns a bag, its [Value] is the value of [a] minus
    the value of [b]. *)
Theorem worth_of_difference (a b c : Moneybag) :
  valid a -> valid b -> op_sub a b = Returned c ->
  value_in_denier (Value_of_Moneybag c)
  = value_in_denier (Value_of_Moneybag a)
    - value_in_denier (Value_of_Moneybag b).
Proof.
  intros Ha Hb H.
  destruct (op_sub_cases a b Ha Hb) as [(_ & E & V) | (_ & E)];
    rewrite E in H; [| discriminate]. injection H as <-.
  rewrite (Value_of_Moneybag_worth _ V), (Value_of_Moneybag_worth a Ha),
    (Value_of_Moneybag_worth b Hb).
  unfold worth, difference. cbn [livres soliduses deniers]. lia.
Qed.

Lemma worth_of_difference_witness :
  value_in_denier (Value_of_Moneybag (mkMoneybag 4 0 5))
  = value_in_denier (Value_of_Moneybag (mkMoneybag 5 7 9))
    - value_in_denier (Value_of_Moneybag (mkMoneybag 1 7 4)).
Proof.
  apply (worth_of_difference (mkMoneybag 5 7 9) (mkMoneybag 1 7 4));
    [in_range | in_range | reflexivity].
Defined.

(** ** The ordering of values is a total order *)

(** X15: [operator==] on values is equality of the stored integers;
    [<=>] is reflexive; swapping the operands swaps [less] and
    [greater]; [less] is transitive; and of two values that are not
    [equivalent] one is [less] than the other. *)
Theorem value_total_order (u v w : Value) :
  (Value_eq v w = true <-> v = w) /\
  Value_cmp v v = wo_equivalent /\
  (Value_cmp v w = wo_greater <-> Value_cmp w v = wo_less) /\
  (Value_cmp v w = wo_equivalent <-> Value_cmp w v = wo_equivalent) /\
  (Value_cmp u v = wo_less -> Value_cmp v w = wo_less ->
   Value_cmp u w = wo_less) /\
  (Value_cmp v w <> wo_equivalent ->
   Value_cmp v w = wo_less \/ Value_cmp w v = wo_less).
Proof.
  destruct (Value_cmp_iff v w) as (Ll & Le & Lg).
  destruct (Value_cmp_iff w v) as (Rl & Re & Rg).
  destruct (Value_cmp_iff u v) as (Ul & _ & _).
  destruct (Value_cmp_iff u w) as (Tl & _ & _).
  destruct (Value_cmp_iff v v) as (_ & Se & _).
  split; [| split; [| split; [| split; [| split]]]].
  - unfold Value_eq. split.
    + intros H. destruct (Value_cmp v w); try discriminate H.
      destruct v as [x], w as [y]. cbn in Le. f_equal. now apply Le.
    + intros <-. now rewrite (proj2 Se eq_refl).
  - now apply Se.
  - rewrite Lg, Rl. lia.
  - rewrite Le, Re. lia.
  - rewrite Ul, Ll, Tl. lia.
  - rewrite Le, Ll, Rl. lia.
Qed.

Lemma value_total_order_witness :
  Value_cmp (Value_of_uint64 3) (Value_of_Moneybag Livre) = wo_less.
Proof.
  apply (value_total_order (Value_of_uint64 3) (Value_of_uint64 12)
           (Value_of_Moneybag Livre)); reflexivity.
Defined.

(** ** The decimal string of a value *)

Lemma to_uint_not_Nil n : N.to_uint n <> Decimal.Nil.
Proof.
  destruct n as [| p]; [discriminate |].
  apply DecimalPos.Unsigned.to_uint_nonnil.
Qed.

Lemma parse_decimal_decimal x : 0 <= x -> parse_decimal (decimal x) = Some x.
Proof.
  intros Hx. unfold parse_decimal, decimal.
  rewrite (NilZero.usu _ (to_uint_not_Nil (Z.to_N x))).
  rewrite DecimalN.Unsigned.of_to. now rewrite Z2N.id.
Qed.

(** X16: The string of a value loses nothing: read back as a base-ten
    numeral it gives the stored integer, so two values with the same
    string are the same value. *)
Theorem value_string_lossless (v w : Value) :
  is_u128 (value_in_denier v) -> is_u128 (value_in_denier w) ->
  parse_decimal (Value_str v) = Some (value_in_denier v) /\
  (Value_str v = Value_str w -> v = w).
Proof.
  intros Hv Hw. unfold Value_str. split.
  - apply parse_decimal_decimal. apply Hv.
  - intros E.
    assert (P : parse_decimal (decimal (value_in_denier v))
                = parse_decimal (decimal (value_in_denier w)))
      by now rewrite E.
    rewrite !parse_decimal_decimal in P by (apply Hv || apply Hw).
    destruct v, w. cbn in *. congruence.
Qed.

Lemma value_string_lossless_witness :
  parse_decimal (Value_str (Value_of_Moneybag max_bag))
  = Some (value_in_denier (Value_of_Moneybag max_bag)).
Proof.
  apply (value_string_lossless (Value_of_Moneybag max_bag)
           (Value_of_Moneybag max_bag));
    vm_compute; split; congruence.
Defined.
